(** * EegMonitorCanvas: ring buffers, the WebSocket message handler and the
    strip-chart redraw of the EEG monitor component.

    JavaScript numbers are modelled as exact rationals [Q]; [yScale] is also
    given over IEEE binary64 ([PrimFloat]) where rounding matters. *)

From stdpp Require Import base list strings.
From Stdlib Require Import QArith Lqa Floats Sorted Permutation.

#[local] Set Warnings "-register-all".
#[local] Open Scope nat_scope.

(** ** JavaScript values

    The values that reach the component: the results of [JSON.parse]
    ([JNull] .. [JObj]; an object keeps its fields in source order, duplicates
    included) and those produced by the code's own arithmetic: [undefined],
    [NaN], and [JCat v n], the string [String(v) + String(n)] that
    [v + n] yields when [v] is a string, array or object. *)
Inductive jsv : Type :=
| JUndef
| JNull
| JBool (b : bool)
| JNum (q : Q)
| JNaN
| JStr (s : string)
| JArr (l : list jsv)
| JObj (fields : list (string * jsv))
| JCat (v : jsv) (n : Q).

(** [interface Sample { timestamp: number; value: number; }]: the code stores
    whatever [JSON.parse] handed it, so the fields are JavaScript values. *)
Record Sample := mkSample { timestamp : jsv; value : jsv }.

Definition SAMPLE_RATE : Q := 250%Q.
Definition WINDOW_DURATION : Q := 2000%Q.
(** [Math.ceil((SAMPLE_RATE * WINDOW_DURATION) / 1000)] = 500. *)
Definition WINDOW_SIZE : nat := 500.
Definition GRAPH_HEIGHT : Q := 100%Q.
Definition GRAPH_WIDTH : Q := 400%Q.

(** ** [class RingBuffer]

    [pointer] is a JavaScript number: [None] stands for [NaN], which is what
    [(this.pointer + 1) % this.capacity] gives for capacity 0. *)
Record RingBuffer := mkRingBuffer {
  buffer : list Sample;
  pointer : option nat;
  capacity : nat
}.

(** [{ timestamp: 0, value: 0 }], the fill value of the constructor. *)
Definition zero_sample : Sample := mkSample (JNum 0%Q) (JNum 0%Q).

(** [constructor(private capacity: number)]: [new Array(capacity).fill(..)]
    (a capacity that is not a non-negative integer throws a RangeError; the
    model takes a [nat]). *)
Definition new_RingBuffer (c : nat) : RingBuffer :=
  mkRingBuffer (replicate c zero_sample) (Some 0) c.

(** [a[i] = x] on an array: in range it replaces the element, at [i = a.length]
    it appends. (Past the end JavaScript would leave holes; the pointer of a
    ring buffer never gets there, see [pointer_le_length].) *)
Definition js_array_set {A} (l : list A) (i : nat) (x : A) : list A :=
  if decide (i < length l) then <[i:=x]> l else l ++ [x].

(** [(p + 1) % c] on JavaScript numbers: [x % 0] is [NaN], [NaN + 1] is [NaN]. *)
Definition js_succ_mod (p : option nat) (c : nat) : option nat :=
  match p with
  | Some p => if Nat.eqb c 0 then None else Some ((p + 1) mod c)
  | None => None
  end.

(** [push(sample)]: [this.buffer[this.pointer] = sample] (with a [NaN]
    pointer this sets the property ["NaN"], no element), then the pointer
    advances modulo the capacity. *)
Definition push (rb : RingBuffer) (s : Sample) : RingBuffer :=
  mkRingBuffer
    (match pointer rb with
     | Some p => js_array_set (buffer rb) p s
     | None => buffer rb
     end)
    (js_succ_mod (pointer rb) (capacity rb))
    (capacity rb).

(** [getArray()]: [[...buffer.slice(pointer), ...buffer.slice(0, pointer)]];
    [slice(NaN)] is [slice(0)] and [slice(0, NaN)] is empty. *)
Definition getArray (rb : RingBuffer) : list Sample :=
  match pointer rb with
  | Some p => drop p (buffer rb) ++ take p (buffer rb)
  | None => buffer rb ++ []
  end.

(** A sequence of pushes, first to last. *)
Definition push_all (rb : RingBuffer) (l : list Sample) : RingBuffer :=
  fold_left push l rb.

(** The last [n] elements of a list. *)
Definition lastn {A} (n : nat) (l : list A) : list A := drop (length l - n) l.

(** The pointer-in-range invariant of a ring buffer. *)
Definition rb_inv (rb : RingBuffer) : Prop :=
  exists p, pointer rb = Some p /\ p < capacity rb /\ length (buffer rb) = capacity rb.

(** ** The message handler

    [dataRef.current]: the four ring buffers, one per channel. *)
Abbreviation Store := (list RingBuffer).

(** [Array(4).fill(null).map(() => new RingBuffer(WINDOW_SIZE))] *)
Definition initial_store : Store := replicate 4 (new_RingBuffer WINDOW_SIZE).

(** A step that may throw: the store as it was when the step ended, normally
    or by an exception (the pushes done before the throw stay done). *)
Inductive outcome : Type :=
| Ok (st : Store)
| Throw (st : Store).

Definition outcome_store (o : outcome) : Store :=
  match o with Ok st => st | Throw st => st end.

(** [o.k] on a parsed object: the last field named [k] ([JSON.parse] keeps the
    last duplicate); other values have no such property. *)
Fixpoint assoc_last (k : string) (fs : list (string * jsv)) : option jsv :=
  match fs with
  | [] => None
  | (k', v) :: fs' =>
      match assoc_last k fs' with
      | Some v' => Some v'
      | None => if String.eqb k k' then Some v else None
      end
  end.

Definition get_prop (o : jsv) (k : string) : jsv :=
  match o with
  | JObj fs => default JUndef (assoc_last k fs)
  | _ => JUndef
  end.

(** [k] is an own property of a parsed object. *)
Definition has_key (k : string) (fs : list (string * jsv)) : bool :=
  existsb (fun kv => String.eqb k (fst kv)) fs.

(** Converting [v] to a primitive (for [+], or for [String] inside
    [Array.prototype.join]) throws a TypeError. A parsed object with its own
    [toString] property has no callable [toString] and a [valueOf] that gives
    no primitive (the inherited one returns the object, an own one is not
    callable); an array converts through [join], which converts each element
    ([null] and [undefined] give [""]). *)
Fixpoint to_primitive_throws (v : jsv) : bool :=
  match v with
  | JObj fs => has_key "toString" fs
  | JArr l => existsb to_primitive_throws l
  | _ => false
  end.

(** [v + n] for a number [n], when [to_primitive_throws v] is false. *)
Definition js_add_num (v : jsv) (n : Q) : jsv :=
  match v with
  | JUndef | JNaN => JNaN
  | JNull => JNum n
  | JBool b => JNum ((if b then 1 else 0) + n)%Q
  | JNum q => JNum (q + n)%Q
  | JStr _ | JArr _ | JObj _ | JCat _ _ => JCat v n
  end.

(** [const sampleInterval = 1000 / SAMPLE_RATE;] *)
Definition sampleInterval : Q := (1000 / SAMPLE_RATE)%Q.

(** [channel.forEach((value, i) => { const timestamp = data.timestamp +
    (i * sampleInterval); dataRef.current[channelIndex].push({timestamp,
    value}); })], from position [i] on: [data.timestamp + ..] throws first
    when the timestamp has no primitive value; [dataRef.current[k]] is
    [undefined] past the fourth buffer and [.push] on it throws a TypeError. *)
Fixpoint push_channel (st : Store) (k : nat) (ts : jsv) (i : nat) (vs : list jsv)
    : outcome :=
  match vs with
  | [] => Ok st
  | v :: vs' =>
      if to_primitive_throws ts then Throw st else
      match st !! k with
      | None => Throw st
      | Some rb =>
          let s := mkSample (js_add_num ts (inject_Z (Z.of_nat i) * sampleInterval)%Q) v in
          push_channel (<[k:=push rb s]> st) k ts (S i) vs'
      end
  end.

(** [data.channels.forEach((channel, channelIndex) => channel.forEach(..))]
    from index [k] on; [forEach] of anything but an array throws. *)
Fixpoint push_channels (st : Store) (ts : jsv) (k : nat) (chs : list jsv) : outcome :=
  match chs with
  | [] => Ok st
  | JArr vs :: chs' =>
      match push_channel st k ts 0 vs with
      | Ok st' => push_channels st' ts (S k) chs'
      | Throw st' => Throw st'
      end
  | _ :: _ => Throw st
  end.

(** The body of the [try] block. The payload is the result of
    [JSON.parse(event.data)]: [None] when it throws a SyntaxError. *)
Definition handle_body (payload : option jsv) (st : Store) : outcome :=
  match payload with
  | None => Throw st
  | Some JNull | Some JUndef => Throw st
  | Some data =>
      match get_prop data "channels" with
      | JArr chs => push_channels st (get_prop data "timestamp") 0 chs
      | _ => Throw st
      end
  end.

(** The function given to [throttle]: [try { .. } catch (error) {
    console.error(..) }]; an exception is caught and the store keeps the
    pushes made before it. *)
Definition on_message (payload : option jsv) (st : Store) : Store :=
  outcome_store (handle_body payload st).

(** ** [throttle(func, 32)] of lodash

    The library is not part of this repository; this follows its source:
    [throttle] is [debounce(func, wait, {leading: true, maxWait: wait,
    trailing: true})]. Times are milliseconds; a timer set at [t] for [wait]
    fires at [t + wait], before a message arriving at the same time. *)
Section Throttle.
Context {A : Type}.

Definition wait : Z := 32.

Record Throttle := mkThrottle {
  lastArgs : option A;
  lastCallTime : option Z;
  lastInvokeTime : Z;
  timerId : option Z   (* the time the pending timer fires *)
}.

Definition throttle_init : Throttle := mkThrottle None None 0 None.

(** [shouldInvoke(time)], with [maxing] and [maxWait = wait]. *)
Definition shouldInvoke (t : Throttle) (time : Z) : bool :=
  match lastCallTime t with
  | None => true
  | Some lc =>
      (wait <=? time - lc)%Z || (time - lc <? 0)%Z
      || (wait <=? time - lastInvokeTime t)%Z
  end.

(** [invokeFunc(time)]: calls [func] with [lastArgs] and clears them. *)
Definition invokeFunc (t : Throttle) (time : Z) : Throttle * list A :=
  (mkThrottle None (lastCallTime t) time (timerId t),
   match lastArgs t with Some a => [a] | None => [] end).

(** [debounced(a)] called at [time]. *)
Definition debounced (t : Throttle) (time : Z) (a : A) : Throttle * list A :=
  let isInvoking := shouldInvoke t time in
  let t := mkThrottle (Some a) (Some time) (lastInvokeTime t) (timerId t) in
  if isInvoking then
    match timerId t with
    | None =>
        (* leadingEdge(time) *)
        invokeFunc (mkThrottle (lastArgs t) (lastCallTime t) time (Some (time + wait)%Z)) time
    | Some _ =>
        (* maxing: restart the timer, invoke *)
        invokeFunc (mkThrottle (lastArgs t) (lastCallTime t) (lastInvokeTime t)
                      (Some (time + wait)%Z)) time
    end
  else
    match timerId t with
    | None => (mkThrottle (lastArgs t) (lastCallTime t) (lastInvokeTime t)
                 (Some (time + wait)%Z), [])
    | Some _ => (t, [])
    end.

Definition remainingWait (t : Throttle) (time : Z) : Z :=
  match lastCallTime t with
  | None => wait
  | Some lc => Z.min (wait - (time - lc)) (wait - (time - lastInvokeTime t))
  end.

(** [timerExpired()] at [time]: [trailingEdge(time)] or a new timer. *)
Definition timerExpired (t : Throttle) (time : Z) : Throttle * list A :=
  if shouldInvoke t time then
    let t := mkThrottle (lastArgs t) (lastCallTime t) (lastInvokeTime t) None in
    match lastArgs t with
    | Some _ => invokeFunc t time
    | None => (t, [])
    end
  else
    (mkThrottle (lastArgs t) (lastCallTime t) (lastInvokeTime t)
       (Some (time + remainingWait t time)%Z), []).

(** Fire the timers due by [upto] ([None]: all of them). Between two calls
    a timer fires at most twice, so [fuel] 4 is more than enough. *)
Fixpoint fire_timers (fuel : nat) (t : Throttle) (upto : option Z) : Throttle * list A :=
  match fuel with
  | O => (t, [])
  | S fuel' =>
      match timerId t with
      | Some due =>
          if match upto with Some u => (due <=? u)%Z | None => true end then
            let '(t1, o1) := timerExpired t due in
            let '(t2, o2) := fire_timers fuel' t1 upto in
            (t2, o1 ++ o2)
          else (t, [])
      | None => (t, [])
      end
  end.

(** The arguments [func] is invoked with, in order, for calls at
    nondecreasing times. *)
Fixpoint throttle_run (t : Throttle) (calls : list (Z * A)) : list A :=
  match calls with
  | [] => snd (fire_timers 4 t None)
  | (time, a) :: calls' =>
      let '(t1, o1) := fire_timers 4 t (Some time) in
      let '(t2, o2) := debounced t1 time a in
      o1 ++ o2 ++ throttle_run t2 calls'
  end.
End Throttle.

(** [ws.onmessage = handleMessage]: messages (arrival time, parsed payload)
    through the throttle into the handler, from the initial store. *)
Definition component_run (msgs : list (Z * option jsv)) : Store :=
  fold_left (fun st p => on_message p st) (throttle_run throttle_init msgs) initial_store.

(** ** [yScale]

    [GRAPH_HEIGHT - ((value - min) / (max - min) * GRAPH_HEIGHT)] with
    [min = -1.5], [max = 1.5], over exact rationals ... *)
Definition yScale (value : Q) : Q :=
  let min := (-3 # 2)%Q in
  let max := (3 # 2)%Q in
  (GRAPH_HEIGHT - ((value - min) / (max - min) * GRAPH_HEIGHT))%Q.

(** ... and over binary64, JavaScript's number type. *)
Definition yScale_f (value : float) : float :=
  let min := (-1.5)%float in
  let max := 1.5%float in
  (100 - ((value - min) / (max - min) * 100))%float.

(** ** [draw]

    The relational operators and [-] convert their operands with ToNumber;
    for strings, arrays and objects that goes through the value's string
    form, which the model leaves abstract as [str_ToNumber]: every statement
    below holds whatever it is. *)
Section Draw.
Variable str_ToNumber : jsv -> option Q.

(** ToNumber; [None] is [NaN]. *)
Definition ToNumber (v : jsv) : option Q :=
  match v with
  | JUndef | JNaN => None
  | JNull => Some 0%Q
  | JBool b => Some (if b then 1 else 0)%Q
  | JNum q => Some q
  | JStr _ | JArr _ | JObj _ | JCat _ _ => str_ToNumber v
  end.

(** [v >= q] and [v <= q] for a number [q]: false on [NaN]. *)
Definition js_ge (v : jsv) (q : Q) : bool :=
  match ToNumber v with Some x => Qle_bool q x | None => false end.
Definition js_le (v : jsv) (q : Q) : bool :=
  match ToNumber v with Some x => Qle_bool x q | None => false end.

(** [s => s.timestamp >= startTime && s.timestamp <= now] with
    [startTime = now - WINDOW_DURATION]. *)
Definition in_window (now : Q) (s : Sample) : bool :=
  js_ge (timestamp s) (now - WINDOW_DURATION)%Q && js_le (timestamp s) now.

(** [(a, b) => a.timestamp - b.timestamp] is negative ([NaN] counts as 0). *)
Definition cmp_neg (a b : Sample) : bool :=
  match ToNumber (timestamp a), ToNumber (timestamp b) with
  | Some x, Some y => negb (Qle_bool 0 (x - y))
  | _, _ => false
  end.

(** [Array.prototype.sort] with that comparator: a stable sort, here by
    insertion; an element goes after every element it does not precede. *)
Fixpoint sort_insert (x : Sample) (l : list Sample) : list Sample :=
  match l with
  | [] => [x]
  | y :: l' => if cmp_neg x y then x :: l else y :: sort_insert x l'
  end.

Definition js_sort (l : list Sample) : list Sample :=
  fold_left (fun acc x => sort_insert x acc) l [].

(** [const samples = buffer.getArray().filter(..).sort(..)] *)
Definition selected (now : Q) (rb : RingBuffer) : list Sample :=
  js_sort (List.filter (in_window now) (getArray rb)).

(** [GRAPH_WIDTH - ((now - sample.timestamp) * GRAPH_WIDTH / WINDOW_DURATION)] *)
Definition x_of (now t : Q) : Q :=
  (GRAPH_WIDTH - ((now - t) * GRAPH_WIDTH / WINDOW_DURATION))%Q.

(** The point [(x, y)] of a sample; [None] is [NaN]. *)
Definition vertex (now : Q) (s : Sample) : option Q * option Q :=
  (option_map (x_of now) (ToNumber (timestamp s)),
   option_map yScale (ToNumber (value s))).

(** The polyline of one channel, [moveTo] the first vertex and [lineTo]
    the others; nothing is drawn with fewer than two samples. *)
Definition draw_channel (now : Q) (rb : RingBuffer) : list (option Q * option Q) :=
  let samples := selected now rb in
  if Nat.leb 2 (length samples) then map (vertex now) samples else [].

(** The order of the chart: both timestamps are numbers, the first no
    later than the second. *)
Definition ts_le (a b : Sample) : Prop :=
  match ToNumber (timestamp a), ToNumber (timestamp b) with
  | Some x, Some y => (x <= y)%Q
  | _, _ => False
  end.

Definition has_num (s : Sample) : Prop := is_Some (ToNumber (timestamp s)).

(** One frame at time [now]: the polylines of the channels in order; a
    channel whose canvas has no 2d context ([has_ctx]) is skipped. *)
Definition draw (now : Q) (has_ctx : nat -> bool) (st : Store)
    : list (list (option Q * option Q)) :=
  imap (fun k rb => if has_ctx k then draw_channel now rb else []) st.
End Draw.

(** ** Background grid and tick labels *)

(** [const VOLTAGE_TICKS = [-1.5, -0.75, 0, 0.75, 1.5];] *)
Definition VOLTAGE_TICKS : list Q := [(-3 # 2); (-3 # 4); 0; (3 # 4); (3 # 2)]%Q.

(** [const TIME_TICKS = [0, 0.5, 1.0, 1.5, 2.0];], a module-level array. *)
Definition TIME_TICKS : list Q := [0; (1 # 2); 1; (3 # 2); 2]%Q.

(** The vertical grid line of a time tick (seconds):
    [GRAPH_WIDTH - (time * GRAPH_WIDTH / (WINDOW_DURATION / 1000))]. *)
Definition grid_x (time : Q) : Q :=
  (GRAPH_WIDTH - (time * GRAPH_WIDTH / (WINDOW_DURATION / 1000)))%Q.

(** The horizontal grid lines: [VOLTAGE_TICKS.forEach(v => .. yScale(v) ..)],
    in the order of the array. *)
Definition voltage_grid_y : list Q := map yScale VOLTAGE_TICKS.

(** The voltage labels, top to bottom in their [flex-col] column:
    [VOLTAGE_TICKS.map(voltage => <div>{voltage}V</div>)]. *)
Definition voltage_labels : list Q := VOLTAGE_TICKS.

(** One render of the component's time labels: [TIME_TICKS.reverse()]
    reverses the module-level array in place and returns it; the labels are
    laid out left to right in that order. Result: (labels, the array after). *)
Definition render_time_labels (ticks : list Q) : list Q * list Q :=
  (rev ticks, rev ticks).

(** The time labels of [n] successive renders, from the array [ticks]. *)
Fixpoint renders (n : nat) (ticks : list Q) : list (list Q) :=
  match n with
  | O => []
  | S n' =>
      let '(labels, ticks') := render_time_labels ticks in
      labels :: renders n' ticks'
  end.

(** ** Vocabulary of the statements *)

(** The samples a channel's readings [vs] become, from position [i] on. *)
Fixpoint channel_samples (ts : jsv) (i : nat) (vs : list jsv) : list Sample :=
  match vs with
  | [] => []
  | v :: vs' =>
      mkSample (js_add_num ts (inject_Z (Z.of_nat i) * sampleInterval)%Q) v
        :: channel_samples ts (S i) vs'
  end.

Definition is_array (v : jsv) : bool :=
  match v with JArr _ => true | _ => false end.

(** The channels up to the first one that is not an array. *)
Fixpoint array_prefix (chs : list jsv) : list (list jsv) :=
  match chs with
  | JArr vs :: chs' => vs :: array_prefix chs'
  | _ => []
  end.

(** Channel [k], [k+1], ... receiving their readings in turn, when there is
    a buffer for them. *)
Fixpoint apply_channels (st : Store) (ts : jsv) (k : nat) (chss : list (list jsv)) : Store :=
  match chss with
  | [] => st
  | vs :: chss' =>
      apply_channels
        (match st !! k with
         | Some rb => <[k:=push_all rb (channel_samples ts 0 vs)]> st
         | None => st
         end) ts (S k) chss'
  end.

(** The step ended by an exception, i.e. the handler logged
    [Error processing message]. *)
Definition threw (o : outcome) : bool :=
  match o with Throw _ => true | Ok _ => false end.

(** Some sample returned by [getArray] has the value [q]. *)
Definition has_value (q : Q) (rb : RingBuffer) : bool :=
  existsb (fun s => match value s with JNum q' => Qeq_bool q' q | _ => false end)
    (getArray rb).

(** * Ring buffer *)

Lemma push_all_snoc (rb : RingBuffer) (l : list Sample) (s : Sample) :
  push_all rb (l ++ [s]) = push (push_all rb l) s.
Proof. unfold push_all. by rewrite fold_left_app. Qed.

(** A write inside the array is a list insert. *)
Lemma js_array_set_in {A} (l : list A) (i : nat) (x : A) :
  i < length l -> js_array_set l i x = <[i:=x]> l.
Proof. intros Hi. unfold js_array_set. by rewrite decide_True. Qed.

Lemma js_succ_mod_pos (p c : nat) :
  0 < c -> js_succ_mod (Some p) c = Some ((p + 1) mod c).
Proof.
  intros Hc. unfold js_succ_mod. destruct (Nat.eqb_spec c 0); [lia | done].
Qed.

(** Rotating the array at the slot after the written one: the oldest element
    leaves the front, the new one arrives at the back. *)
Lemma rotate_insert (buf : list Sample) (p : nat) (s x : Sample) (rest : list Sample) :
  p < length buf ->
  drop p buf ++ take p buf = x :: rest ->
  drop ((p + 1) mod length buf) (<[p:=s]> buf)
    ++ take ((p + 1) mod length buf) (<[p:=s]> buf) = rest ++ [s].
Proof.
  intros Hp Hrot.
  destruct (lookup_lt_is_Some_2 buf p Hp) as [y Hy].
  rewrite (drop_S _ _ _ Hy) in Hrot. simpl in Hrot.
  injection Hrot as <- Hrest. subst rest.
  rewrite insert_take_drop by done.
  assert (HA : length (take p buf) = p) by (apply length_take_le; lia).
  assert (Hlen : length buf = p + 1 + length (drop (S p) buf))
    by (rewrite length_drop; lia).
  destruct (decide (p + 1 = length buf)) as [Hend | Hmid].
  - rewrite <- Hend, Nat.Div0.mod_same.
    assert (drop (S p) buf = []) as -> by (apply nil_length_inv; lia).
    by rewrite drop_0, take_0, !app_nil_r.
  - rewrite Nat.mod_small by lia.
    rewrite (drop_app_add' _ _ p 1) by lia.
    rewrite (take_app_add' _ _ p 1) by lia.
    simpl. by rewrite <- app_assoc.
Qed.

Lemma lastn_snoc {A} (c : nat) (l : list A) (s : A) :
  0 < c -> c <= length l -> lastn c (l ++ [s]) = tail (lastn c l) ++ [s].
Proof.
  intros Hc Hl. unfold lastn. rewrite length_app. simpl.
  replace (length l + 1 - c) with (S (length l - c)) by lia.
  rewrite drop_app_le by lia. f_equal.
  replace (S (length l - c)) with ((length l - c) + 1) by lia.
  rewrite <- drop_drop. by destruct (drop (length l - c) l).
Qed.

Lemma length_lastn {A} (c : nat) (l : list A) :
  c <= length l -> length (lastn c l) = c.
Proof. intros H. unfold lastn. rewrite length_drop. lia. Qed.

(** From a fresh buffer of capacity [c > 0], after the pushes [l]: the
    pointer is [length l mod c], the array keeps [c] slots, and [getArray] is
    the last [c] entries of the initial fill followed by [l]. *)
Lemma push_all_new (c : nat) (l : list Sample) :
  0 < c ->
  pointer (push_all (new_RingBuffer c) l) = Some (length l mod c) /\
  capacity (push_all (new_RingBuffer c) l) = c /\
  length (buffer (push_all (new_RingBuffer c) l)) = c /\
  getArray (push_all (new_RingBuffer c) l) = lastn c (replicate c zero_sample ++ l).
Proof.
  intros Hc. induction l as [| s l IH] using rev_ind.
  - simpl. rewrite Nat.Div0.mod_0_l. rewrite length_replicate.
    unfold getArray, lastn. simpl. rewrite drop_0, take_0, !app_nil_r.
    rewrite length_replicate, Nat.sub_diag. by rewrite drop_0.
  - rewrite push_all_snoc.
    destruct IH as (Hptr & Hcap & Hlen & Harr).
    set (rb := push_all (new_RingBuffer c) l) in *.
    set (p := length l mod c) in *.
    assert (Hp : p < c) by (apply Nat.mod_upper_bound; lia).
    unfold push. rewrite Hptr, Hcap. cbn [pointer buffer capacity].
    rewrite js_array_set_in by lia. rewrite js_succ_mod_pos by done.
    rewrite length_insert. rewrite length_app. simpl.
    assert (Hmod : (p + 1) mod c = (length l + 1) mod c)
      by (unfold p; apply Nat.Div0.add_mod_idemp_l).
    rewrite Hmod. split; [done | split; [done | split; [done |]]].
    unfold getArray in Harr. rewrite Hptr in Harr. unfold getArray. simpl.
    rewrite <- Hmod.
    assert (Hfull : c <= length (replicate c zero_sample ++ l))
      by (rewrite length_app, length_replicate; lia).
    rewrite (app_assoc (replicate c zero_sample) l [s]), (lastn_snoc c _ s Hc Hfull).
    destruct (lastn c (replicate c zero_sample ++ l)) as [| x rest] eqn:Hw.
    + pose proof (length_lastn c _ Hfull) as Hlw. rewrite Hw in Hlw. simpl in Hlw. lia.
    + simpl. rewrite <- Hlen. apply (rotate_insert _ _ s x rest); [lia | by rewrite Harr].
Qed.

Lemma lastn_fill {A} (c : nat) (z : A) (l : list A) :
  c <= length l -> lastn c (replicate c z ++ l) = lastn c l.
Proof.
  intros H. unfold lastn. rewrite length_app, length_replicate.
  rewrite drop_app, length_replicate.
  rewrite drop_ge by (rewrite length_replicate; lia). simpl. f_equal. lia.
Qed.

(** Under [rb_inv], [push] writes inside the array and keeps [rb_inv]. *)
Lemma push_inv (rb : RingBuffer) (s : Sample) :
  rb_inv rb ->
  rb_inv (push rb s) /\
  exists p, pointer rb = Some p /\ p < length (buffer rb) /\
            buffer (push rb s) = <[p:=s]> (buffer rb).
Proof.
  intros (p & Hp & Hlt & Hlen). unfold push. rewrite Hp. cbn [pointer buffer capacity].
  rewrite js_array_set_in by lia. split.
  - exists ((p + 1) mod capacity rb). cbn [pointer buffer capacity]. rewrite js_succ_mod_pos by lia.
    split; [done | split]; [apply Nat.mod_upper_bound; lia | by rewrite length_insert].
  - exists p. split; [done | split; [lia | done]].
Qed.

(** [pointer_le_length]: every buffer built by the code writes at most one
    slot past its end (capacity 0: the first write appends, the pointer then
    is [NaN]), so [js_array_set] never needs holes. *)
Lemma pointer_le_length (c : nat) (l : list Sample) :
  match pointer (push_all (new_RingBuffer c) l) with
  | Some p => p <= length (buffer (push_all (new_RingBuffer c) l))
  | None => True
  end.
Proof.
  destruct c as [| c].
  - destruct l as [| s l] using rev_ind; [simpl; lia |].
    rewrite push_all_snoc. unfold push. cbn [pointer].
    destruct (pointer (push_all (new_RingBuffer 0) l)); [| done].
    assert (Hc : capacity (push_all (new_RingBuffer 0) l) = 0).
    { clear. induction l as [| t l IH] using rev_ind; [done |].
      by rewrite push_all_snoc. }
    rewrite Hc. done.
  - destruct (push_all_new (S c) l) as (-> & _ & -> & _); [lia |].
    pose proof (Nat.mod_upper_bound (length l) (S c)). lia.
Qed.

(** ** C1 *)
(** C1: once a ring buffer of capacity [c > 0] has received at least [c]
    pushes, the next push writes the new sample into the slot that holds the
    sample pushed exactly [c] pushes earlier (the oldest one), and leaves
    every other slot as it was. *)
Theorem push_overwrites_oldest (c : nat) (l : list Sample) (s : Sample) :
  0 < c -> c <= length l ->
  exists p,
    pointer (push_all (new_RingBuffer c) l) = Some p /\ p < c /\
    buffer (push_all (new_RingBuffer c) l) !! p = l !! (length l - c) /\
    buffer (push (push_all (new_RingBuffer c) l) s)
      = <[p:=s]> (buffer (push_all (new_RingBuffer c) l)).
Proof.
  intros Hc Hl.
  destruct (push_all_new c l Hc) as (Hptr & Hcap & Hlen & Harr).
  assert (Hinv : rb_inv (push_all (new_RingBuffer c) l)).
  { exists (length l mod c). rewrite Hcap.
    split; [done | split; [apply Nat.mod_upper_bound; lia | done]]. }
  destruct (push_inv _ s Hinv) as (_ & p & Hp & Hpl & Hbuf).
  rewrite Hptr in Hp. injection Hp as <-.
  exists (length l mod c). split; [done | split; [apply Nat.mod_upper_bound; lia | split]].
  - unfold getArray in Harr. rewrite Hptr, lastn_fill in Harr by done.
    assert (Hd := f_equal (fun k => k !! 0) Harr). cbn beta in Hd.
    rewrite lookup_app_l in Hd by (rewrite length_drop; lia).
    rewrite lookup_drop, Nat.add_0_r in Hd. rewrite Hd.
    unfold lastn. by rewrite lookup_drop, Nat.add_0_r.
  - done.
Qed.

(** ** C3 *)
(** C3 (as stated, refuted): capacity 0 is accepted by the constructor, and
    the first push then grows the array from 0 to 1 element (the write at
    index 0 appends) while [getArray] returns that one sample. *)
Lemma capacity0_length_grows :
  length (buffer (new_RingBuffer 0)) = 0 /\
  length (buffer (push (new_RingBuffer 0) zero_sample)) = 1 /\
  length (getArray (push (new_RingBuffer 0) zero_sample)) = 1.
Proof. split; [| split]; reflexivity. Qed.

(** C3 (amended): for a capacity [c > 0], after any sequence of pushes the
    array has exactly [c] slots and [getArray] returns exactly [c] samples. *)
Theorem buffer_length_constant (c : nat) (l : list Sample) :
  0 < c ->
  length (buffer (push_all (new_RingBuffer c) l)) = c /\
  length (getArray (push_all (new_RingBuffer c) l)) = c.
Proof.
  intros Hc. destruct (push_all_new c l Hc) as (_ & _ & Hlen & Harr).
  split; [done |]. rewrite Harr. apply length_lastn.
  rewrite length_app, length_replicate. lia.
Qed.

(** ** C8 *)
(** C8 (as stated, refuted): with capacity 0, after one push [getArray]
    returns that sample, not the last 0 pushed samples. *)
Lemma capacity0_getArray_not_last :
  getArray (push (new_RingBuffer 0) zero_sample) = [zero_sample] /\
  lastn 0 [zero_sample] = [].
Proof. split; reflexivity. Qed.

(** C8 (amended): for a capacity [c > 0] and [n >= c] pushes, [getArray]
    returns exactly the last [c] pushed samples, oldest first. *)
Theorem getArray_last_pushes (c : nat) (l : list Sample) :
  0 < c -> c <= length l ->
  getArray (push_all (new_RingBuffer c) l) = lastn c l.
Proof.
  intros Hc Hl. destruct (push_all_new c l Hc) as (_ & _ & _ & Harr).
  rewrite Harr. by apply lastn_fill.
Qed.

(** ** C10 *)
(** C10: for a capacity [c > 0] the invariant [0 <= pointer < c] (with the
    array of length [c]) holds for the new buffer and is kept by every push,
    and under it a push writes at an index inside the array. *)
Theorem pointer_in_bounds (c : nat) (rb : RingBuffer) (s : Sample) :
  0 < c ->
  rb_inv (new_RingBuffer c) /\
  (rb_inv rb ->
   rb_inv (push rb s) /\
   exists p, pointer rb = Some p /\ p < length (buffer rb) /\
             buffer (push rb s) = <[p:=s]> (buffer rb)).
Proof.
  intros Hc. split.
  - exists 0. simpl. rewrite length_replicate. split; [done | split; [lia | done]].
  - apply push_inv.
Qed.

(** * Message handler *)

Lemma push_channel_some (st : Store) (k : nat) (ts : jsv) (i : nat) (vs : list jsv)
    (rb : RingBuffer) :
  to_primitive_throws ts = false -> st !! k = Some rb ->
  push_channel st k ts i vs = Ok (<[k:=push_all rb (channel_samples ts i vs)]> st).
Proof.
  intros Hts. revert st rb i. induction vs as [| v vs IH]; intros st rb i Hk;
    cbn [push_channel channel_samples].
  - f_equal. symmetry. by apply list_insert_id.
  - rewrite Hts, Hk. erewrite IH.
    + by rewrite list_insert_insert_eq.
    + apply list_lookup_insert_eq. eapply lookup_lt_Some; eauto.
Qed.

Lemma push_channel_none (st : Store) (k : nat) (ts : jsv) (i : nat) (vs : list jsv) :
  st !! k = None ->
  push_channel st k ts i vs = match vs with [] => Ok st | _ :: _ => Throw st end.
Proof.
  intros Hk. destruct vs; simpl; [done |].
  destruct (to_primitive_throws ts); [done | by rewrite Hk].
Qed.

(** A timestamp without a primitive value throws at the first reading,
    before any push. *)
Lemma push_channel_throws (st : Store) (k : nat) (ts : jsv) (i : nat) (vs : list jsv) :
  to_primitive_throws ts = true ->
  push_channel st k ts i vs = match vs with [] => Ok st | _ :: _ => Throw st end.
Proof. intros Hts. destruct vs; simpl; [done | by rewrite Hts]. Qed.

Lemma apply_channels_beyond (st : Store) (ts : jsv) (k : nat) (chss : list (list jsv)) :
  length st <= k -> apply_channels st ts k chss = st.
Proof.
  revert k. induction chss as [| vs chss IH]; intros k Hk; simpl; [done |].
  rewrite lookup_ge_None_2 by lia. apply IH. lia.
Qed.

Lemma length_apply_channels (st : Store) (ts : jsv) (k : nat) (chss : list (list jsv)) :
  length (apply_channels st ts k chss) = length st.
Proof.
  revert st k. induction chss as [| vs chss IH]; intros st k; simpl; [done |].
  rewrite IH. destruct (st !! k); [apply length_insert | done].
Qed.

(** What the channel loop leaves in the store, thrown or not: nothing when
    the timestamp has no primitive value; otherwise the channels before the
    first non-array one, each pushed into its buffer. *)
Lemma push_channels_store (st : Store) (ts : jsv) (k : nat) (chs : list jsv) :
  outcome_store (push_channels st ts k chs) =
  if to_primitive_throws ts then st else apply_channels st ts k (array_prefix chs).
Proof.
  destruct (to_primitive_throws ts) eqn:Hts.
  { revert st k. induction chs as [| ch chs IH]; intros st k; [done |].
    destruct ch; try done. simpl. rewrite push_channel_throws by done.
    destruct l; [apply IH | done]. }
  revert st k. induction chs as [| ch chs IH]; intros st k; [done |].
  destruct ch; try done. simpl.
  destruct (st !! k) as [rb |] eqn:Hk.
  - rewrite (push_channel_some _ _ _ _ _ rb Hts Hk). apply IH.
  - rewrite push_channel_none by done. destruct l.
    + apply IH.
    + simpl. symmetry. apply apply_channels_beyond.
      apply lookup_ge_None_1 in Hk. lia.
Qed.

Lemma lookup_apply_channels (st : Store) (ts : jsv) (k : nat) (chss : list (list jsv))
    (m : nat) :
  apply_channels st ts k chss !! m =
  (fun rb => if decide (k <= m) then
               match chss !! (m - k) with
               | Some vs => push_all rb (channel_samples ts 0 vs)
               | None => rb
               end
             else rb) <$> st !! m.
Proof.
  revert st k. induction chss as [| vs chss IH]; intros st k; simpl.
  - destruct (st !! m); simpl; [| done]. by case_decide.
  - rewrite IH. destruct (decide (m = k)) as [-> | Hne].
    + destruct (st !! k) as [rb |] eqn:Hk; simpl.
      * rewrite list_lookup_insert_eq by (eapply lookup_lt_Some; eauto). simpl.
        rewrite decide_False by lia. rewrite decide_True by lia.
        by rewrite Nat.sub_diag.
      * by rewrite Hk.
    + assert (Hst : (match st !! k with
                     | Some rb => <[k:=push_all rb (channel_samples ts 0 vs)]> st
                     | None => st end) !! m = st !! m).
      { destruct (st !! k); [by apply list_lookup_insert_ne | done]. }
      rewrite Hst. destruct (st !! m); simpl; [| done]. f_equal.
      destruct (decide (S k <= m)); destruct (decide (k <= m)); try lia; [| done].
      by replace (m - k) with (S (m - S k)) by lia.
Qed.

(** The handler on a parsed value with an array [channels]: buffer [m] has
    received the readings of channel [m] if channels [0..m] are arrays, and
    is unchanged otherwise. *)
Lemma on_message_lookup (data : jsv) (chs : list jsv) (st : Store) (m : nat) :
  get_prop data "channels" = JArr chs ->
  to_primitive_throws (get_prop data "timestamp") = false ->
  on_message (Some data) st !! m =
  (fun rb => match array_prefix chs !! m with
             | Some vs => push_all rb (channel_samples (get_prop data "timestamp") 0 vs)
             | None => rb
             end) <$> st !! m.
Proof.
  intros H Hts. unfold on_message, handle_body.
  destruct data; try (simpl in H; discriminate). cbn -[get_prop]. rewrite H.
  rewrite push_channels_store, Hts, lookup_apply_channels.
  destruct (st !! m); simpl; [| done]. repeat case_decide; try lia; by rewrite ?Nat.sub_0_r.
Qed.

Lemma on_message_length (payload : option jsv) (st : Store) :
  length (on_message payload st) = length st.
Proof.
  unfold on_message, handle_body. destruct payload as [data |]; [| done].
  destruct data; try done. cbn -[get_prop].
  destruct (get_prop _ "channels"); try done.
  rewrite push_channels_store. destruct (to_primitive_throws _); [done |].
  apply length_apply_channels.
Qed.

Lemma array_prefix_all (chs : list jsv) (k : nat) (vs : list jsv) :
  Forall (fun ch => is_array ch = true) chs -> chs !! k = Some (JArr vs) ->
  array_prefix chs !! k = Some vs.
Proof.
  intros Hall. revert k. induction Hall as [| ch chs Hch Hall IH]; intros k Hk; [done |].
  destruct ch; try discriminate. destruct k; simpl in *; [congruence | by apply IH].
Qed.

Lemma lookup_channel_samples (ts : jsv) (i j : nat) (vs : list jsv) :
  channel_samples ts i vs !! j =
  (fun v => mkSample (js_add_num ts (inject_Z (Z.of_nat (i + j)) * sampleInterval)%Q) v)
    <$> vs !! j.
Proof.
  revert i j. induction vs as [| v vs IH]; intros i j; [done |].
  destruct j; simpl.
  - by rewrite Nat.add_0_r.
  - rewrite IH. by replace (S i + j) with (i + S j) by lia.
Qed.

Lemma length_channel_samples (ts : jsv) (i : nat) (vs : list jsv) :
  length (channel_samples ts i vs) = length vs.
Proof. revert i. induction vs; intros i; simpl; auto. Qed.

Lemma has_value_false (q : Q) (rb : RingBuffer) :
  has_value q rb = false -> forall s, In s (getArray rb) -> value s <> JNum q.
Proof.
  intros H s Hs Hv. unfold has_value in H.
  assert (existsb (fun s => match value s with JNum q' => Qeq_bool q' q | _ => false end)
            (getArray rb) = true) as Ht.
  { apply existsb_exists. exists s. split; [done |]. rewrite Hv. apply Qeq_bool_refl. }
  congruence.
Qed.

(** ** C2 *)
(** C2 (as stated, refuted): three batches arriving 10 ms apart go through
    lodash's 32 ms throttle; the handler runs on the first and the last only,
    and the reading [2] of the middle batch never reaches channel 0's buffer. *)
Lemma throttle_drops_batch :
  let msg := fun q : Q =>
    Some (JObj [("channels", JArr [JArr [JNum q]]); ("timestamp", JNum 0)]) in
  throttle_run throttle_init [(1000%Z, msg 1%Q); (1010%Z, msg 2%Q); (1020%Z, msg 3%Q)]
    = [msg 1%Q; msg 3%Q] /\
  is_Some (component_run [(1000%Z, msg 1%Q); (1010%Z, msg 2%Q); (1020%Z, msg 3%Q)] !! 0) /\
  forall rb s,
    component_run [(1000%Z, msg 1%Q); (1010%Z, msg 2%Q); (1020%Z, msg 3%Q)] !! 0 = Some rb ->
    In s (getArray rb) -> value s <> JNum 2%Q.
Proof.
  intros msg. split; [vm_compute; reflexivity |]. split.
  - vm_compute. eexists. reflexivity.
  - intros rb s Hrb. apply has_value_false.
    assert (H : option_map (has_value 2%Q)
                  (component_run [(1000%Z, msg 1%Q); (1010%Z, msg 2%Q); (1020%Z, msg 3%Q)] !! 0)
                = Some false) by (vm_compute; reflexivity).
    rewrite Hrb in H. simpl in H. congruence.
Qed.

(** C2 (amended): on every message the throttle passes to the handler whose
    [channels] is an array of arrays and whose [timestamp] can be added to a
    number without throwing, the readings of each channel [k] that has a
    buffer ([k < 4] in the component) are pushed, in order, into buffer
    [k]; the store keeps its four buffers, so no other channel's readings
    are stored. *)
Theorem handler_pushes_batch (data : jsv) (chs : list jsv) (st : Store) (k : nat)
    (vs : list jsv) (rb : RingBuffer) :
  get_prop data "channels" = JArr chs ->
  to_primitive_throws (get_prop data "timestamp") = false ->
  Forall (fun ch => is_array ch = true) chs ->
  chs !! k = Some (JArr vs) ->
  st !! k = Some rb ->
  on_message (Some data) st !! k
    = Some (push_all rb (channel_samples (get_prop data "timestamp") 0 vs)) /\
  length (on_message (Some data) st) = length st.
Proof.
  intros Hch Hts Hall Hk Hrb. split; [| apply on_message_length].
  rewrite (on_message_lookup _ _ _ _ Hch Hts), Hrb. simpl.
  by rewrite (array_prefix_all _ _ _ Hall Hk).
Qed.

Lemma handler_pushes_batch_witness :
  get_prop (JObj [("channels", JArr [JArr [JNum 1; JNum 2]]); ("timestamp", JNum 0)])
    "channels" = JArr [JArr [JNum 1; JNum 2]] /\
  on_message (Some (JObj [("channels", JArr [JArr [JNum 1; JNum 2]]); ("timestamp", JNum 0)]))
    initial_store !! 0
  = Some (push_all (new_RingBuffer WINDOW_SIZE)
            (channel_samples (JNum 0) 0 [JNum 1; JNum 2])).
Proof.
  split; [reflexivity |].
  apply (handler_pushes_batch
           (JObj [("channels", JArr [JArr [JNum 1; JNum 2]]); ("timestamp", JNum 0)])
           [JArr [JNum 1; JNum 2]] initial_store 0 [JNum 1; JNum 2]
           (new_RingBuffer WINDOW_SIZE));
    [reflexivity | reflexivity | repeat constructor | reflexivity | reflexivity].
Defined.

(** ** C4 *)
(** C4 (as stated, refuted): a batch with five channels; the store has four
    buffers, each of the first four receives its reading [1], then
    [dataRef.current[4].push] throws, and no buffer holds a sample with the
    fifth channel's reading [5] (see [has_value_false]). *)
Lemma fifth_channel_not_stored :
  let data := JObj [("channels", JArr [JArr [JNum 1]; JArr [JNum 1]; JArr [JNum 1];
                                       JArr [JNum 1]; JArr [JNum 5]]);
                    ("timestamp", JNum 0)] in
  handle_body (Some data) initial_store
    = Throw (map (fun rb => push rb (mkSample (JNum (0 + 0 * sampleInterval)) (JNum 1)))
                 initial_store) /\
  forallb (fun rb => negb (has_value 5 rb)) (on_message (Some data) initial_store) = true.
Proof. intros data. split; vm_compute; reflexivity. Qed.

(** C4 (amended): on every message the handler processes whose [channels]
    is an array of arrays and whose [timestamp] is a number [t], the [i]-th
    reading [v] of a channel that has a buffer becomes the sample with value
    [v] unchanged and timestamp [t + i * (1000 / 250)], pushed into that
    channel's buffer in reading order; the store keeps its buffers (four in
    the component), so the readings of the channels without one (index 4
    or more) are stored nowhere. *)
Theorem batch_sample_fields (data : jsv) (chs : list jsv) (t : Q) (st : Store) (k : nat)
    (vs : list jsv) (rb : RingBuffer) :
  get_prop data "channels" = JArr chs ->
  get_prop data "timestamp" = JNum t ->
  Forall (fun ch => is_array ch = true) chs ->
  chs !! k = Some (JArr vs) ->
  st !! k = Some rb ->
  length (on_message (Some data) st) = length st /\
  exists ss,
    on_message (Some data) st !! k = Some (push_all rb ss) /\
    length ss = length vs /\
    forall i v, vs !! i = Some v ->
      ss !! i = Some (mkSample (JNum (t + inject_Z (Z.of_nat i) * (1000 / 250))%Q) v).
Proof.
  intros Hch Hts Hall Hk Hrb. split; [apply on_message_length |].
  exists (channel_samples (JNum t) 0 vs).
  split; [| split].
  - rewrite (on_message_lookup _ _ _ _ Hch) by (by rewrite Hts). rewrite Hrb, Hts. simpl.
    by rewrite (array_prefix_all _ _ _ Hall Hk).
  - apply length_channel_samples.
  - intros i v Hv. rewrite lookup_channel_samples, Hv. reflexivity.
Qed.

Lemma batch_sample_fields_witness :
  length (on_message (Some (JObj [("channels", JArr [JArr [JNum 7]]); ("timestamp", JNum 1000)]))
            initial_store) = length initial_store /\
  exists ss,
    on_message (Some (JObj [("channels", JArr [JArr [JNum 7]]); ("timestamp", JNum 1000)]))
      initial_store !! 0 = Some (push_all (new_RingBuffer WINDOW_SIZE) ss) /\
    length ss = 1 /\
    forall i v, [JNum 7] !! i = Some v ->
      ss !! i = Some (mkSample (JNum (1000 + inject_Z (Z.of_nat i) * (1000 / 250))%Q) v).
Proof.
  apply (batch_sample_fields
           (JObj [("channels", JArr [JArr [JNum 7]]); ("timestamp", JNum 1000)])
           [JArr [JNum 7]] 1000 initial_store 0 [JNum 7] (new_RingBuffer WINDOW_SIZE));
    [reflexivity | reflexivity | repeat constructor | reflexivity | reflexivity].
Defined.

(** ** C5 *)
(** C5 (as stated, refuted): a payload that is not a batch (its second
    channel is the number 7): the handler pushes the first channel's reading,
    then [(7).forEach] throws, the error is caught, and buffer 0 keeps the
    pushed sample. *)
Lemma partial_batch_changes_buffer :
  let data := JObj [("channels", JArr [JArr [JNum 1]; JNum 7]); ("timestamp", JNum 1000)] in
  (exists st, handle_body (Some data) initial_store = Throw st) /\
  on_message (Some data) initial_store <> initial_store.
Proof.
  intros data. split.
  - vm_compute. eexists. reflexivity.
  - intros H. apply (f_equal (fun st : Store => option_map pointer (st !! 0))) in H.
    vm_compute in H. discriminate.
Qed.

(** C5 (amended): the handler catches every error: it always returns, with
    the four buffers. When [JSON.parse] fails, or the parsed value has no
    array [channels], or its [timestamp] cannot be added to a number (the
    first [data.timestamp + ..] throws before any push), no buffer changes;
    otherwise the channels are processed in order up to the first one that
    is not an array, whose error stops the loop: those channels keep their
    pushes, the later buffers are unchanged. *)
Theorem handler_catches_errors (payload : option jsv) (st : Store) :
  length (on_message payload st) = length st /\
  (payload = None -> on_message payload st = st) /\
  (forall data, payload = Some data ->
     (forall chs, get_prop data "channels" <> JArr chs) -> on_message payload st = st) /\
  (forall data, payload = Some data ->
     to_primitive_throws (get_prop data "timestamp") = true -> on_message payload st = st) /\
  (forall data chs m, payload = Some data -> get_prop data "channels" = JArr chs ->
     to_primitive_throws (get_prop data "timestamp") = false ->
     on_message payload st !! m =
     (fun rb => match array_prefix chs !! m with
                | Some vs => push_all rb (channel_samples (get_prop data "timestamp") 0 vs)
                | None => rb
                end) <$> st !! m).
Proof.
  split; [apply on_message_length | split; [| split; [| split]]].
  - by intros ->.
  - intros data -> Hno. unfold on_message, handle_body.
    destruct data; try done; cbn -[get_prop];
      destruct (get_prop _ "channels") eqn:E; try done; exfalso; eapply Hno; eauto.
  - intros data -> Hts. unfold on_message, handle_body.
    destruct data; try done; cbn -[get_prop];
      destruct (get_prop _ "channels"); try done; by rewrite push_channels_store, Hts.
  - intros data chs m -> Hch Hts. by apply on_message_lookup.
Qed.

(** * Redraw *)
Section DrawProofs.
Variable str_ToNumber : jsv -> option Q.
Local Abbreviation ToNumber := (ToNumber str_ToNumber).
Local Abbreviation in_window := (in_window str_ToNumber).
Local Abbreviation selected := (selected str_ToNumber).
Local Abbreviation js_sort := (js_sort str_ToNumber).
Local Abbreviation sort_insert := (sort_insert str_ToNumber).
Local Abbreviation cmp_neg := (cmp_neg str_ToNumber).
Local Abbreviation vertex := (vertex str_ToNumber).
Local Abbreviation draw_channel := (draw_channel str_ToNumber).
Local Abbreviation ts_le := (ts_le str_ToNumber).
Local Abbreviation has_num := (has_num str_ToNumber).

Lemma sort_insert_perm (x : Sample) (l : list Sample) :
  Permutation (sort_insert x l) (x :: l).
Proof.
  induction l as [| y l IH]; simpl; [done |].
  destruct (cmp_neg x y); [done |].
  etransitivity; [apply perm_skip, IH | apply perm_swap].
Qed.

Lemma js_sort_perm (l : list Sample) : Permutation (js_sort l) l.
Proof.
  unfold js_sort.
  assert (H : forall acc, Permutation (fold_left (fun acc x => sort_insert x acc) l acc)
                                      (l ++ acc)).
  { induction l as [| x l IH]; intros acc; simpl; [done |].
    rewrite IH. rewrite sort_insert_perm. apply Permutation_sym, Permutation_middle. }
  rewrite H. by rewrite app_nil_r.
Qed.

Lemma in_window_spec (now : Q) (s : Sample) :
  in_window now s = true <->
  exists t, ToNumber (timestamp s) = Some t /\
            (now - WINDOW_DURATION <= t)%Q /\ (t <= now)%Q.
Proof.
  unfold in_window, js_ge, js_le.
  destruct (ToNumber (timestamp s)) as [t |].
  - rewrite andb_true_iff, !Qle_bool_iff. split.
    + intros [H1 H2]. eauto.
    + intros (t' & [= <-] & H1 & H2). done.
  - split; [discriminate | by intros (t & ? & _)].
Qed.

Lemma cmp_neg_spec (a b : Sample) (x y : Q) :
  ToNumber (timestamp a) = Some x -> ToNumber (timestamp b) = Some y ->
  (cmp_neg a b = true <-> (x < y)%Q).
Proof.
  intros Ha Hb. unfold cmp_neg. rewrite Ha, Hb. rewrite negb_true_iff. split.
  - intros H. apply Qnot_le_lt. intros Hle.
    assert (Qle_bool 0 (x - y) = true) by (apply Qle_bool_iff; lra). congruence.
  - intros H. destruct (Qle_bool 0 (x - y)) eqn:E; [| done].
    apply Qle_bool_iff in E. lra.
Qed.

Lemma sort_insert_hd (y x : Sample) (l : list Sample) :
  HdRel ts_le y l -> ts_le y x -> HdRel ts_le y (sort_insert x l).
Proof.
  intros Hl Hyx. destruct l as [| z l]; simpl; [by constructor |].
  destruct (cmp_neg x z); constructor; [done |]. by inversion Hl.
Qed.

Lemma sort_insert_sorted (x : Sample) (l : list Sample) :
  has_num x -> Forall has_num l -> Sorted ts_le l -> Sorted ts_le (sort_insert x l).
Proof.
  intros Hx. induction l as [| y l IH]; intros Hl Hs; simpl; [by repeat constructor |].
  inversion Hl as [| ? ? Hy Hl']; subst. inversion Hs as [| ? ? Hs' Hhd]; subst.
  destruct Hx as [tx Htx]. destruct Hy as [ty Hty].
  destruct (cmp_neg x y) eqn:Hc.
  - apply (cmp_neg_spec _ _ _ _ Htx Hty) in Hc.
    constructor; [done |]. constructor. unfold ts_le. rewrite Htx, Hty. lra.
  - assert (Hn : ~ (tx < ty)%Q) by (rewrite <- (cmp_neg_spec _ _ _ _ Htx Hty); congruence).
    constructor; [by apply IH |]. apply sort_insert_hd; [done |].
    unfold ts_le. rewrite Htx, Hty. by apply Qnot_lt_le.
Qed.

Lemma js_sort_sorted (l : list Sample) :
  Forall has_num l -> Sorted ts_le (js_sort l).
Proof.
  unfold js_sort. intros Hl.
  assert (H : forall acc, Forall has_num acc -> Sorted ts_le acc ->
              Sorted ts_le (fold_left (fun acc x => sort_insert x acc) l acc)).
  { induction l as [| x l IH]; intros acc Hacc Hs; simpl; [done |].
    inversion Hl; subst. apply IH; [done | | by apply sort_insert_sorted].
    apply List.Forall_forall. intros y Hy.
    apply (Permutation_in _ (sort_insert_perm x acc)) in Hy.
    destruct Hy as [<- | Hy]; [done |]. by apply (proj1 (List.Forall_forall _ _) Hacc). }
  apply H; constructor.
Qed.

Lemma selected_has_num (now : Q) (rb : RingBuffer) :
  Forall has_num (List.filter (in_window now) (getArray rb)).
Proof.
  apply List.Forall_forall. intros s Hs. apply filter_In in Hs as [_ Hw].
  apply in_window_spec in Hw as (t & Ht & _). by exists t.
Qed.

Lemma Sorted_map_rel {A B} (R : A -> A -> Prop) (R' : B -> B -> Prop) (f : A -> B)
    (l : list A) :
  (forall a b, R a b -> R' (f a) (f b)) -> Sorted R l -> Sorted R' (map f l).
Proof.
  intros Hf Hs. induction Hs as [| a l Hs IH Hhd]; simpl; constructor; [done |].
  destruct Hhd; simpl; constructor. by apply Hf.
Qed.

Lemma x_of_affine (now t : Q) : (x_of now t == 400 - (now - t) * (1 # 5))%Q.
Proof. unfold x_of, GRAPH_WIDTH, WINDOW_DURATION. field. Qed.

(** ** C6 *)
(** C6: a redraw at time [now] selects exactly the samples of the buffer
    whose timestamp is a number in [[now - 2000, now]] (each as often as the
    buffer holds it), draws their vertices (when there are at least two),
    each at [x = GRAPH_WIDTH - ((now - timestamp) * GRAPH_WIDTH / 2000)]:
    age 0 is the right edge, age 2000 the left edge, and a later redraw
    moves every sample left in proportion to the elapsed time. *)
Theorem redraw_selects_window (now : Q) (rb : RingBuffer) :
  Permutation (selected now rb) (List.filter (in_window now) (getArray rb)) /\
  (forall s, In s (selected now rb) <->
     In s (getArray rb) /\
     exists t, ToNumber (timestamp s) = Some t /\
               (now - WINDOW_DURATION <= t)%Q /\ (t <= now)%Q) /\
  draw_channel now rb =
    (if Nat.leb 2 (length (selected now rb)) then map (vertex now) (selected now rb)
     else []) /\
  (forall s, In s (selected now rb) ->
     exists t, ToNumber (timestamp s) = Some t /\
       fst (vertex now s)
       = Some (GRAPH_WIDTH - ((now - t) * GRAPH_WIDTH / WINDOW_DURATION))%Q) /\
  (x_of now now == GRAPH_WIDTH)%Q /\
  (x_of now (now - WINDOW_DURATION) == 0)%Q /\
  (forall d t, x_of (now + d) t == x_of now t - d * GRAPH_WIDTH / WINDOW_DURATION)%Q.
Proof.
  assert (Hperm : Permutation (selected now rb)
                    (List.filter (in_window now) (getArray rb)))
    by apply js_sort_perm.
  assert (Hin : forall s, In s (selected now rb) <->
     In s (getArray rb) /\
     exists t, ToNumber (timestamp s) = Some t /\
               (now - WINDOW_DURATION <= t)%Q /\ (t <= now)%Q).
  { intros s. rewrite <- in_window_spec, <- filter_In. split.
    - apply Permutation_in, Hperm.
    - apply Permutation_in, Permutation_sym, Hperm. }
  split; [done | split; [done | split; [done | split]]].
  - intros s Hs. apply Hin in Hs as [_ (t & Ht & _)].
    exists t. split; [done |]. unfold vertex. simpl. by rewrite Ht.
  - unfold x_of, GRAPH_WIDTH, WINDOW_DURATION.
    split; [field | split; [field | intros d t; field]].
Qed.

(** ** C7 *)
(** C7: the samples a redraw selects are sorted by timestamp (all of them
    numbers), the polyline of the channel is their vertices in that order
    (or nothing), and its x coordinates never decrease along it. *)
Theorem redraw_time_order (now : Q) (rb : RingBuffer) :
  Sorted ts_le (selected now rb) /\
  (draw_channel now rb = [] \/ draw_channel now rb = map (vertex now) (selected now rb)) /\
  Sorted (fun p q : option Q * option Q =>
            match fst p, fst q with
            | Some a, Some b => (a <= b)%Q
            | _, _ => False
            end) (draw_channel now rb).
Proof.
  assert (Hs : Sorted ts_le (selected now rb))
    by (apply js_sort_sorted, selected_has_num).
  split; [done |]. unfold draw_channel.
  destruct (Nat.leb 2 (length (selected now rb))); [| split; [by left | constructor]].
  split; [by right |].
  apply (Sorted_map_rel ts_le); [| done].
  intros a b Hab. unfold ts_le in Hab. unfold vertex.
  simpl. destruct (ToNumber (timestamp a)) as [x |]; [| done].
  destruct (ToNumber (timestamp b)) as [y |]; [| done]. simpl.
  rewrite !x_of_affine. lra.
Qed.
End DrawProofs.

(** * Vertical scale *)

Lemma yScale_affine (v : Q) : (yScale v == 50 - v * (100 # 3))%Q.
Proof. unfold yScale, GRAPH_HEIGHT. field. Qed.

(** ** C9 *)
(** C9 (as stated, refuted): in JavaScript's double precision [yScale] is not
    strictly decreasing, [0 < 2^-60] but both map to the same [y] (the
    difference is lost in [value - min]); and [1.5 + 2^-52], above [1.5], maps
    to [0], inside the chart. *)
Lemma yScale_rounding :
  PrimFloat.ltb 0%float 0x1p-60%float = true /\
  yScale_f 0%float = yScale_f 0x1p-60%float /\
  PrimFloat.ltb 1.5%float (1.5 + 0x1p-52)%float = true /\
  yScale_f (1.5 + 0x1p-52)%float = 0%float.
Proof. split; [| split; [| split]]; vm_compute; reflexivity. Qed.

(** C9 (amended): [yScale] maps [-1.5] to [GRAPH_HEIGHT], [1.5] to [0] and
    [0] to [GRAPH_HEIGHT / 2], exactly, also in double precision; as a
    formula over exact numbers it is affine and strictly decreasing and maps
    values above [1.5] below [0] and values below [-1.5] above
    [GRAPH_HEIGHT] (no clamping; in doubles e.g. [3] maps to [-50] and [-3]
    to [150]); in double precision values whose difference is lost to
    rounding map to the same [y]. *)
Theorem yScale_affine_decreasing :
  yScale_f (-1.5)%float = 100%float /\ yScale_f 1.5%float = 0%float /\
  yScale_f 0%float = 50%float /\
  yScale_f 3%float = (-50)%float /\ yScale_f (-3)%float = 150%float /\
  yScale_f 0%float = yScale_f 0x1p-60%float /\
  (yScale (-3 # 2) == GRAPH_HEIGHT)%Q /\ (yScale (3 # 2) == 0)%Q /\
  (yScale 0 == GRAPH_HEIGHT / 2)%Q /\
  (forall v, yScale v == GRAPH_HEIGHT / 2 - v * (GRAPH_HEIGHT / 3))%Q /\
  (forall v1 v2, v1 < v2 -> yScale v2 < yScale v1)%Q /\
  (forall v, 3 # 2 < v -> yScale v < 0)%Q /\
  (forall v, v < -3 # 2 -> GRAPH_HEIGHT < yScale v)%Q.
Proof.
  repeat split; try (vm_compute; reflexivity).
  - intros v. unfold yScale, GRAPH_HEIGHT. field.
  - intros v1 v2 H. rewrite !yScale_affine. lra.
  - intros v H. rewrite yScale_affine. lra.
  - intros v H. rewrite yScale_affine. unfold GRAPH_HEIGHT. lra.
Qed.

(** * Witnesses of the ring-buffer statements *)

Lemma push_overwrites_oldest_witness :
  0 < 2 /\ 2 <= length [mkSample (JNum 1) JNull; mkSample (JNum 2) JNull; mkSample (JNum 3) JNull] /\
  exists p,
    pointer (push_all (new_RingBuffer 2)
               [mkSample (JNum 1) JNull; mkSample (JNum 2) JNull; mkSample (JNum 3) JNull])
      = Some p /\ p < 2 /\
    buffer (push_all (new_RingBuffer 2)
              [mkSample (JNum 1) JNull; mkSample (JNum 2) JNull; mkSample (JNum 3) JNull]) !! p
      = [mkSample (JNum 1) JNull; mkSample (JNum 2) JNull; mkSample (JNum 3) JNull] !! 1 /\
    buffer (push (push_all (new_RingBuffer 2)
              [mkSample (JNum 1) JNull; mkSample (JNum 2) JNull; mkSample (JNum 3) JNull])
              (mkSample (JNum 4) JNull))
      = <[p:=mkSample (JNum 4) JNull]>
          (buffer (push_all (new_RingBuffer 2)
             [mkSample (JNum 1) JNull; mkSample (JNum 2) JNull; mkSample (JNum 3) JNull])).
Proof.
  split; [lia | split; [simpl; lia |]].
  apply (push_overwrites_oldest 2
           [mkSample (JNum 1) JNull; mkSample (JNum 2) JNull; mkSample (JNum 3) JNull]
           (mkSample (JNum 4) JNull)); [lia | simpl; lia].
Defined.

Lemma buffer_length_constant_witness :
  0 < 3 /\
  length (buffer (push_all (new_RingBuffer 3) [zero_sample; zero_sample])) = 3 /\
  length (getArray (push_all (new_RingBuffer 3) [zero_sample; zero_sample])) = 3.
Proof.
  split; [lia |]. apply (buffer_length_constant 3 [zero_sample; zero_sample]). lia.
Defined.

Lemma getArray_last_pushes_witness :
  0 < 2 /\ 2 <= length [mkSample (JNum 1) JNull; mkSample (JNum 2) JNull; mkSample (JNum 3) JNull] /\
  getArray (push_all (new_RingBuffer 2)
              [mkSample (JNum 1) JNull; mkSample (JNum 2) JNull; mkSample (JNum 3) JNull])
    = lastn 2 [mkSample (JNum 1) JNull; mkSample (JNum 2) JNull; mkSample (JNum 3) JNull].
Proof.
  split; [lia | split; [simpl; lia |]].
  apply (getArray_last_pushes 2); [lia | simpl; lia].
Defined.

Lemma pointer_in_bounds_witness :
  0 < WINDOW_SIZE /\
  rb_inv (new_RingBuffer WINDOW_SIZE) /\
  (rb_inv (new_RingBuffer WINDOW_SIZE) ->
   rb_inv (push (new_RingBuffer WINDOW_SIZE) zero_sample) /\
   exists p, pointer (new_RingBuffer WINDOW_SIZE) = Some p /\
             p < length (buffer (new_RingBuffer WINDOW_SIZE)) /\
             buffer (push (new_RingBuffer WINDOW_SIZE) zero_sample)
             = <[p:=zero_sample]> (buffer (new_RingBuffer WINDOW_SIZE))).
Proof.
  split; [unfold WINDOW_SIZE; lia |].
  apply (pointer_in_bounds WINDOW_SIZE (new_RingBuffer WINDOW_SIZE) zero_sample).
  unfold WINDOW_SIZE; lia.
Defined.

(** * Further properties of the code *)

(** ** Ring buffer *)

Lemma getArray_new_prefix (c : nat) (l : list Sample) :
  0 < c -> length l <= c ->
  getArray (push_all (new_RingBuffer c) l) = replicate (c - length l) zero_sample ++ l.
Proof.
  intros Hc Hl. destruct (push_all_new c l Hc) as (_ & _ & _ & ->).
  unfold lastn. rewrite length_app, length_replicate.
  replace (c + length l - c) with (length l) by lia.
  rewrite drop_app_le by (rewrite length_replicate; lia).
  by rewrite drop_replicate.
Qed.

(** [getArray] returns the slots of the array, each exactly once, rotated
    at the pointer (whatever the pointer, [NaN] included). *)
Theorem getArray_permutation (rb : RingBuffer) :
  Permutation (getArray rb) (buffer rb).
Proof.
  unfold getArray. destruct (pointer rb) as [p |].
  - rewrite Permutation_app_comm. by rewrite take_drop.
  - by rewrite app_nil_r.
Qed.

(** Until a buffer of capacity [c > 0] has received [c] samples, [getArray]
    returns the unused slots of the constructor's fill
    [{timestamp: 0, value: 0}] first, then the samples pushed so far, oldest
    first. *)
Theorem getArray_before_full (c : nat) (l : list Sample) :
  0 < c -> length l <= c ->
  getArray (push_all (new_RingBuffer c) l) = replicate (c - length l) zero_sample ++ l.
Proof. apply getArray_new_prefix. Qed.

(** A buffer of capacity 0 keeps the first sample pushed into it and nothing
    else: the first push appends it at index 0, the pointer becomes [NaN]
    ([1 % 0]) and every later push writes to the property ["NaN"]. *)
Theorem capacity0_keeps_first (s : Sample) (l : list Sample) :
  push_all (new_RingBuffer 0) (s :: l) = mkRingBuffer [s] None 0.
Proof.
  unfold push_all. cbn [fold_left].
  change (push (new_RingBuffer 0) s) with (mkRingBuffer [s] None 0).
  induction l as [| x l IH]; [done |]. exact IH.
Qed.

(** ** Handler and component *)

(** Each buffer after a message is the buffer before it, with some samples
    pushed (possibly none). *)
Lemma on_message_pushes (payload : option jsv) (st : Store) (m : nat) (rb' : RingBuffer) :
  on_message payload st !! m = Some rb' ->
  exists rb ss, st !! m = Some rb /\ rb' = push_all rb ss.
Proof.
  intros H. unfold on_message, handle_body in H.
  destruct payload as [data |]; [| exists rb', []; by split].
  assert (Harr : forall chs, get_prop data "channels" = JArr chs ->
            outcome_store (push_channels st (get_prop data "timestamp") 0 chs) !! m = Some rb' ->
            exists rb ss, st !! m = Some rb /\ rb' = push_all rb ss).
  { intros chs _ Hm. rewrite push_channels_store in Hm.
    destruct (to_primitive_throws _); [exists rb', []; by split |].
    rewrite lookup_apply_channels in Hm.
    destruct (st !! m) as [rb |]; simpl in Hm; [| discriminate].
    injection Hm as <-. exists rb.
    try case_decide; destruct (array_prefix chs !! _) as [vs |];
      [by exists (channel_samples (get_prop data "timestamp") 0 vs) | by exists []]. }
  destruct data; try (exists rb', []; by split);
    destruct (get_prop _ "channels") eqn:Hc; try (exists rb', []; by split);
    by eapply Harr.
Qed.

(** Whatever messages arrive, and whatever the throttle lets through, the
    component keeps four buffers, each of them a [RingBuffer(WINDOW_SIZE)]
    that has received some sequence of pushes: the ring-buffer properties
    apply to every channel at every moment. *)
Theorem component_buffers_from_pushes (msgs : list (Z * option jsv)) :
  length (component_run msgs) = 4 /\
  forall m rb, component_run msgs !! m = Some rb ->
  exists l, rb = push_all (new_RingBuffer WINDOW_SIZE) l.
Proof.
  unfold component_run. generalize (throttle_run throttle_init msgs) as ps. intros ps.
  assert (Hgen : forall st, length st = 4 ->
            (forall m rb, st !! m = Some rb ->
             exists l, rb = push_all (new_RingBuffer WINDOW_SIZE) l) ->
            length (fold_left (fun st p => on_message p st) ps st) = 4 /\
            forall m rb, fold_left (fun st p => on_message p st) ps st !! m = Some rb ->
            exists l, rb = push_all (new_RingBuffer WINDOW_SIZE) l).
  { induction ps as [| p ps IH]; intros st Hlen Hst; simpl; [done |].
    apply IH; [by rewrite on_message_length |].
    intros m rb Hm. apply on_message_pushes in Hm as (rb0 & ss & Hm & ->).
    destruct (Hst m rb0 Hm) as [l ->]. exists (l ++ ss).
    unfold push_all. by rewrite fold_left_app. }
  apply Hgen; [done |]. intros m rb Hm. apply lookup_replicate in Hm as [-> _].
  by exists [].
Qed.

Lemma push_channel_ok (st : Store) (k : nat) (ts : jsv) (vs : list jsv) :
  ((k < length st /\ to_primitive_throws ts = false) \/ vs = []) ->
  exists st', push_channel st k ts 0 vs = Ok st' /\ length st' = length st.
Proof.
  intros [[Hk Hts] | ->]; [| by exists st].
  destruct (lookup_lt_is_Some_2 st k Hk) as [rb Hrb].
  rewrite (push_channel_some _ _ _ _ _ rb Hts Hrb). eexists; split; [done |].
  apply length_insert.
Qed.

Lemma push_channel_ko (st : Store) (k : nat) (ts : jsv) (vs : list jsv) :
  ~ ((k < length st /\ to_primitive_throws ts = false) \/ vs = []) ->
  push_channel st k ts 0 vs = Throw st.
Proof.
  intros Hko. destruct vs as [| v vs]; [tauto |].
  destruct (to_primitive_throws ts) eqn:Hts; [by rewrite push_channel_throws |].
  destruct (decide (k < length st)); [tauto |].
  rewrite push_channel_none; [done | apply lookup_ge_None_2; lia].
Qed.

Lemma push_channels_threw (st : Store) (ts : jsv) (k : nat) (chs : list jsv) :
  threw (push_channels st ts k chs) = false <->
  forall j ch, chs !! j = Some ch ->
  exists vs, ch = JArr vs /\
    ((k + j < length st /\ to_primitive_throws ts = false) \/ vs = []).
Proof.
  revert st k. induction chs as [| ch chs IH]; intros st k.
  - split; [intros _ j ch Hj; discriminate | done].
  - assert (Hnot : (forall j ch', (ch :: chs) !! j = Some ch' ->
                    exists vs, ch' = JArr vs /\
                      ((k + j < length st /\ to_primitive_throws ts = false) \/ vs = [])) ->
                   exists vs, ch = JArr vs /\
                     ((k < length st /\ to_primitive_throws ts = false) \/ vs = [])).
    { intros H. destruct (H 0 ch eq_refl) as (vs & Hv & Hvs).
      exists vs. by rewrite Nat.add_0_r in Hvs. }
    destruct ch as [| | b | q | | str | vs | fs | v n];
      try (split; [discriminate | intros H; destruct (Hnot H) as (? & ? & _); discriminate]).
    destruct (decide ((k < length st /\ to_primitive_throws ts = false) \/ vs = []))
      as [Hok | Hko].
    + destruct (push_channel_ok st k ts vs Hok) as (st' & Hst' & Hlen).
      simpl. rewrite Hst', IH, Hlen. split.
      * intros H [| j] ch' Hj; simpl in Hj.
        -- injection Hj as <-. exists vs. split; [done |]. by rewrite Nat.add_0_r.
        -- destruct (H j ch' Hj) as (vs' & ? & [[? ?] | ?]); exists vs';
             split; [done | left; split; [lia | done] | done | by right].
      * intros H j ch' Hj. destruct (H (S j) ch' Hj) as (vs' & ? & [[? ?] | ?]); exists vs';
          split; [done | left; split; [lia | done] | done | by right].
    + simpl. rewrite (push_channel_ko _ _ _ _ Hko). split; [discriminate |].
      intros H. destruct (Hnot H) as (vs' & [= <-] & ?). tauto.
Qed.

(** A message whose [channels] is an array is handled without an error
    exactly when every channel is an array and each non-empty channel has a
    buffer (index below 4) and meets a [timestamp] that can be added to a
    number; otherwise the handler logs the error (and keeps the pushes made
    before it). *)
Theorem handler_ok_iff (data : jsv) (chs : list jsv) (st : Store) :
  get_prop data "channels" = JArr chs ->
  threw (handle_body (Some data) st) = false <->
  forall k ch, chs !! k = Some ch ->
  exists vs, ch = JArr vs /\
    ((k < length st /\ to_primitive_throws (get_prop data "timestamp") = false) \/ vs = []).
Proof.
  intros H. unfold handle_body.
  destruct data; try (simpl in H; discriminate); cbn -[get_prop]; rewrite H;
    apply push_channels_threw.
Qed.

(** ** Redraw *)

Section ExtraDrawProofs.
Variable str_ToNumber : jsv -> option Q.
Local Abbreviation ToNumber := (ToNumber str_ToNumber).
Local Abbreviation in_window := (in_window str_ToNumber).
Local Abbreviation selected := (selected str_ToNumber).
Local Abbreviation js_sort := (js_sort str_ToNumber).
Local Abbreviation sort_insert := (sort_insert str_ToNumber).
Local Abbreviation cmp_neg := (cmp_neg str_ToNumber).
Local Abbreviation vertex := (vertex str_ToNumber).
Local Abbreviation draw_channel := (draw_channel str_ToNumber).
Local Abbreviation ts_le := (ts_le str_ToNumber).

Lemma ts_le_cmp_neg (a b : Sample) : ts_le a b -> cmp_neg b a = false.
Proof.
  unfold ts_le, cmp_neg.
  destruct (ToNumber (timestamp a)) as [x |], (ToNumber (timestamp b)) as [y |];
    try done.
  intros H. apply negb_false_iff, Qle_bool_iff. lra.
Qed.

Lemma ts_le_trans (a b c : Sample) : ts_le a b -> ts_le b c -> ts_le a c.
Proof.
  unfold ts_le.
  destruct (ToNumber (timestamp a)) as [x |], (ToNumber (timestamp b)) as [y |],
    (ToNumber (timestamp c)) as [z |]; try done.
  intros. lra.
Qed.

Lemma sort_insert_last (x : Sample) (acc : list Sample) :
  (forall y, In y acc -> cmp_neg x y = false) -> sort_insert x acc = acc ++ [x].
Proof.
  induction acc as [| y acc IH]; intros H; simpl; [done |].
  rewrite (H y (or_introl eq_refl)). f_equal. apply IH. intros z Hz. apply H. by right.
Qed.

Lemma js_sort_id (l : list Sample) : StronglySorted ts_le l -> js_sort l = l.
Proof.
  unfold js_sort.
  assert (H : forall acc, (forall a b, In a acc -> In b l -> ts_le a b) ->
              StronglySorted ts_le l ->
              fold_left (fun acc x => sort_insert x acc) l acc = acc ++ l).
  { induction l as [| x l IH]; intros acc Hacc Hs; simpl; [by rewrite app_nil_r |].
    inversion Hs as [| ? ? Hs' Hall]; subst.
    rewrite sort_insert_last.
    - rewrite IH; [by rewrite <- app_assoc | | done].
      intros a b Ha Hb. apply in_app_or in Ha as [Ha | [<- | []]].
      + apply Hacc; [done | by right].
      + by apply (proj1 (List.Forall_forall _ _) Hall).
    - intros y Hy. apply ts_le_cmp_neg, Hacc; [done | by left]. }
  intros Hs. by apply H.
Qed.

Lemma filter_fill (now : Q) (n : nat) :
  (WINDOW_DURATION < now)%Q -> List.filter (in_window now) (replicate n zero_sample) = [].
Proof.
  intros Hnow. induction n as [| n IH]; [done |]. simpl. rewrite IH.
  destruct (in_window now zero_sample) eqn:Hw; [| done].
  apply in_window_spec in Hw as (t & [= <-] & Ht & _). unfold WINDOW_DURATION in *. lra.
Qed.

(** Every vertex a redraw produces has a numeric [x] inside the canvas,
    [0 <= x <= GRAPH_WIDTH]. *)
Theorem redraw_x_in_canvas (now : Q) (rb : RingBuffer) (p : option Q * option Q) :
  In p (draw_channel now rb) ->
  exists x, fst p = Some x /\ (0 <= x <= GRAPH_WIDTH)%Q.
Proof.
  unfold draw_channel. destruct (Nat.leb 2 _); [| done].
  intros Hp. apply in_map_iff in Hp as (s & <- & Hs).
  unfold selected in Hs. apply (Permutation_in _ (js_sort_perm _ _)) in Hs.
  apply filter_In in Hs as [_ Hw]. apply in_window_spec in Hw as (t & Ht & H1 & H2).
  exists (x_of now t). unfold vertex. simpl. rewrite Ht. split; [done |].
  pose proof (x_of_affine now t). unfold WINDOW_DURATION, GRAPH_WIDTH in *. lra.
Qed.

(** Once [Date.now()] is past 2000, the slots of the constructor's fill
    (timestamp 0) are never drawn: before the buffer is full a redraw shows
    exactly the samples pushed so far that fall in the window. *)
Theorem fill_never_drawn (now : Q) (c : nat) (l : list Sample) :
  0 < c -> length l <= c -> (WINDOW_DURATION < now)%Q ->
  selected now (push_all (new_RingBuffer c) l) = js_sort (List.filter (in_window now) l).
Proof.
  intros Hc Hl Hnow. unfold selected. rewrite getArray_new_prefix by done.
  rewrite List.filter_app, filter_fill by done. done.
Qed.

(** When the in-window samples already come out of [getArray] in
    non-decreasing timestamp order, the sort leaves them as they are (it
    never moves a sample past one with an equal timestamp). *)
Theorem sort_keeps_ordered (now : Q) (rb : RingBuffer) :
  Sorted ts_le (List.filter (in_window now) (getArray rb)) ->
  selected now rb = List.filter (in_window now) (getArray rb).
Proof.
  intros Hs. unfold selected. apply js_sort_id.
  apply Sorted_StronglySorted; [| done].
  intros a b c. apply ts_le_trans.
Qed.

Lemma untimed_samples (now : Q) (i : nat) (vs : list jsv) :
  Forall (fun s => timestamp s = JNaN /\ in_window now s = false)
    (channel_samples JUndef i vs).
Proof.
  revert i. induction vs as [| v vs IH]; intros i; simpl; constructor; [| apply IH].
  split; [done |]. unfold in_window, js_ge. done.
Qed.

(** A message without a [timestamp] is still stored: each channel's
    readings are pushed into its buffer, as samples with the timestamp
    [undefined + i * 4 = NaN], which no redraw ever selects. *)
Theorem untimed_batch_never_drawn (data : jsv) (chs : list jsv) (st : Store) (m : nat)
    (vs : list jsv) (rb : RingBuffer) (now : Q) :
  get_prop data "channels" = JArr chs -> get_prop data "timestamp" = JUndef ->
  Forall (fun ch => is_array ch = true) chs ->
  chs !! m = Some (JArr vs) ->
  st !! m = Some rb ->
  on_message (Some data) st !! m = Some (push_all rb (channel_samples JUndef 0 vs)) /\
  length (channel_samples JUndef 0 vs) = length vs /\
  Forall (fun s => timestamp s = JNaN /\ in_window now s = false)
    (channel_samples JUndef 0 vs).
Proof.
  intros Hc Ht Hall Hk Hm.
  rewrite (on_message_lookup data chs st m Hc) by (by rewrite Ht). rewrite Hm, Ht. simpl.
  rewrite (array_prefix_all _ _ _ Hall Hk).
  split; [done | split; [apply length_channel_samples | apply untimed_samples]].
Qed.
End ExtraDrawProofs.

(** ** Background grid and labels *)

(** The vertical grid line of a tick of [time] seconds is where a redraw
    puts a sample [time * 1000] ms old. *)
Theorem grid_line_at_sample_age (time now : Q) :
  (grid_x time == x_of now (now - time * 1000))%Q.
Proof. unfold grid_x, x_of, GRAPH_WIDTH, WINDOW_DURATION. field. Qed.

Lemma renders_labels (n k : nat) (ticks labels : list Q) :
  renders n ticks !! k = Some labels ->
  labels = if Nat.even k then rev ticks else ticks.
Proof.
  revert ticks k. induction n as [| n IH]; intros ticks k H; [discriminate |].
  destruct k as [| k]; simpl in H.
  - by injection H as <-.
  - apply IH in H. rewrite H, rev_involutive, Nat.even_succ, <- Nat.negb_even.
    by destruct (Nat.even k).
Qed.

(** [TIME_TICKS.reverse()] in the render reverses the shared module array
    each time the component renders: the labels of the first, third, ...
    render read [2s 1.5s 1s 0.5s 0s] from left to right, matching the grid
    (age 2 s at the left edge), those of the second, fourth, ... render read
    [0s .. 2s], the other way round. *)
Theorem time_labels_alternate (n k : nat) (labels : list Q) :
  renders n TIME_TICKS !! k = Some labels ->
  labels = if Nat.even k then rev TIME_TICKS else TIME_TICKS.
Proof. apply renders_labels. Qed.

Lemma lookup_StronglySorted_lt (l : list Q) (i j : nat) (v w : Q) :
  StronglySorted Qlt l -> i < j -> l !! i = Some v -> l !! j = Some w -> (v < w)%Q.
Proof.
  revert i j. induction l as [| x l IH]; intros i j Hs Hij Hi Hj; [discriminate |].
  inversion Hs as [| ? ? Hs' Hall]; subst.
  destruct i as [| i], j as [| j]; simpl in *; try lia.
  - injection Hi as <-. apply (proj1 (List.Forall_forall _ _) Hall).
    by apply list_elem_of_In, list_elem_of_lookup_2 with j.
  - apply (IH i j); [done | lia | done | done].
Qed.

(** The voltage labels, top to bottom, go up from -1.5 V to 1.5 V, while
    their grid lines go down the canvas: of two labels, the upper one names
    the lower line. *)
Theorem voltage_labels_upside_down (i j : nat) (v w : Q) :
  i < j -> voltage_labels !! i = Some v -> voltage_labels !! j = Some w ->
  voltage_grid_y !! i = Some (yScale v) /\ voltage_grid_y !! j = Some (yScale w) /\
  (yScale w < yScale v)%Q.
Proof.
  intros Hij Hi Hj. unfold voltage_grid_y.
  rewrite !list_lookup_fmap. unfold voltage_labels in Hi, Hj. rewrite Hi, Hj.
  split; [done | split; [done |]].
  assert (Hs : StronglySorted Qlt VOLTAGE_TICKS)
    by (repeat constructor; vm_compute; reflexivity).
  pose proof (lookup_StronglySorted_lt _ _ _ _ _ Hs Hij Hi Hj).
  pose proof (yScale_affine v). pose proof (yScale_affine w). lra.
Qed.

(** ** Witnesses of the further properties *)

Lemma getArray_before_full_witness :
  0 < 3 /\ length [mkSample (JNum 7) JNull] <= 3 /\
  getArray (push_all (new_RingBuffer 3) [mkSample (JNum 7) JNull])
    = replicate (3 - length [mkSample (JNum 7) JNull]) zero_sample ++ [mkSample (JNum 7) JNull].
Proof.
  split; [lia | split; [simpl; lia |]].
  apply (getArray_before_full 3 [mkSample (JNum 7) JNull]); [lia | simpl; lia].
Defined.

Lemma handler_ok_iff_witness :
  get_prop (JObj [("timestamp", JNum 0); ("channels", JArr [JArr [JNum 1]; JArr []; JArr []; JArr []; JArr []])])
    "channels" = JArr [JArr [JNum 1]; JArr []; JArr []; JArr []; JArr []] /\
  (threw (handle_body (Some (JObj [("timestamp", JNum 0);
            ("channels", JArr [JArr [JNum 1]; JArr []; JArr []; JArr []; JArr []])])) initial_store)
     = false <->
   forall k ch, [JArr [JNum 1]; JArr []; JArr []; JArr []; JArr []] !! k = Some ch ->
   exists vs, ch = JArr vs /\
     ((k < length initial_store /\
       to_primitive_throws (get_prop (JObj [("timestamp", JNum 0);
         ("channels", JArr [JArr [JNum 1]; JArr []; JArr []; JArr []; JArr []])]) "timestamp")
       = false) \/ vs = [])).
Proof.
  split; [reflexivity |]. apply handler_ok_iff. reflexivity.
Defined.

Lemma redraw_x_in_canvas_witness :
  In (hd (None, None) (draw_channel (fun _ => None) 1000
        (push_all (new_RingBuffer 2) [mkSample (JNum 990) (JNum 0); mkSample (JNum 1000) (JNum 1)])))
     (draw_channel (fun _ => None) 1000
        (push_all (new_RingBuffer 2) [mkSample (JNum 990) (JNum 0); mkSample (JNum 1000) (JNum 1)])) /\
  exists x, fst (hd (None, None) (draw_channel (fun _ => None) 1000
        (push_all (new_RingBuffer 2) [mkSample (JNum 990) (JNum 0); mkSample (JNum 1000) (JNum 1)])))
     = Some x /\ (0 <= x <= GRAPH_WIDTH)%Q.
Proof.
  split; [vm_compute; left; reflexivity |].
  apply (redraw_x_in_canvas (fun _ => None) 1000
    (push_all (new_RingBuffer 2) [mkSample (JNum 990) (JNum 0); mkSample (JNum 1000) (JNum 1)])).
  vm_compute. left. reflexivity.
Defined.

Lemma fill_never_drawn_witness :
  0 < 3 /\ length [mkSample (JNum 4990) (JNum 0)] <= 3 /\ (WINDOW_DURATION < 5000)%Q /\
  selected (fun _ => None) 5000 (push_all (new_RingBuffer 3) [mkSample (JNum 4990) (JNum 0)])
    = js_sort (fun _ => None)
        (List.filter (in_window (fun _ => None) 5000) [mkSample (JNum 4990) (JNum 0)]).
Proof.
  split; [lia | split; [simpl; lia | split; [vm_compute; reflexivity |]]].
  apply (fill_never_drawn (fun _ => None) 5000 3 [mkSample (JNum 4990) (JNum 0)]); [lia | simpl; lia | vm_compute; reflexivity].
Defined.

Lemma sort_keeps_ordered_witness :
  Sorted (ts_le (fun _ => None))
    (List.filter (in_window (fun _ => None) 1000)
       (getArray (push_all (new_RingBuffer 2)
          [mkSample (JNum 990) (JNum 0); mkSample (JNum 1000) (JNum 1)]))) /\
  selected (fun _ => None) 1000
    (push_all (new_RingBuffer 2) [mkSample (JNum 990) (JNum 0); mkSample (JNum 1000) (JNum 1)])
  = List.filter (in_window (fun _ => None) 1000)
      (getArray (push_all (new_RingBuffer 2)
         [mkSample (JNum 990) (JNum 0); mkSample (JNum 1000) (JNum 1)])).
Proof.
  assert (Hs : Sorted (ts_le (fun _ => None))
    (List.filter (in_window (fun _ => None) 1000)
       (getArray (push_all (new_RingBuffer 2)
          [mkSample (JNum 990) (JNum 0); mkSample (JNum 1000) (JNum 1)])))).
  { vm_compute. repeat constructor; vm_compute; intros Hc; discriminate Hc. }
  split; [exact Hs |]. apply (sort_keeps_ordered (fun _ => None) 1000). exact Hs.
Defined.

Lemma untimed_batch_never_drawn_witness :
  get_prop (JObj [("channels", JArr [JArr [JNum 1; JNum 2]])]) "channels"
    = JArr [JArr [JNum 1; JNum 2]] /\
  get_prop (JObj [("channels", JArr [JArr [JNum 1; JNum 2]])]) "timestamp" = JUndef /\
  initial_store !! 0 = Some (new_RingBuffer WINDOW_SIZE) /\
  on_message (Some (JObj [("channels", JArr [JArr [JNum 1; JNum 2]])])) initial_store !! 0
    = Some (push_all (new_RingBuffer WINDOW_SIZE) (channel_samples JUndef 0 [JNum 1; JNum 2])) /\
  length (channel_samples JUndef 0 [JNum 1; JNum 2]) = length [JNum 1; JNum 2] /\
  Forall (fun s => timestamp s = JNaN /\ in_window (fun _ => None) 0 s = false)
    (channel_samples JUndef 0 [JNum 1; JNum 2]).
Proof.
  split; [reflexivity | split; [reflexivity | split; [reflexivity |]]].
  apply (untimed_batch_never_drawn (fun _ => None) _ [JArr [JNum 1; JNum 2]] initial_store 0
           [JNum 1; JNum 2] (new_RingBuffer WINDOW_SIZE) 0);
    [reflexivity | reflexivity | repeat constructor | reflexivity | reflexivity].
Defined.

Lemma time_labels_alternate_witness :
  renders 2 TIME_TICKS !! 1 = Some TIME_TICKS /\
  TIME_TICKS = (if Nat.even 1 then rev TIME_TICKS else TIME_TICKS).
Proof.
  split; [reflexivity |]. apply (time_labels_alternate 2 1). reflexivity.
Defined.

Lemma voltage_labels_upside_down_witness :
  0 < 4 /\ voltage_labels !! 0 = Some (-3 # 2)%Q /\ voltage_labels !! 4 = Some (3 # 2)%Q /\
  voltage_grid_y !! 0 = Some (yScale (-3 # 2)) /\ voltage_grid_y !! 4 = Some (yScale (3 # 2)) /\
  (yScale (3 # 2) < yScale (-3 # 2))%Q.
Proof.
  split; [lia | split; [reflexivity | split; [reflexivity |]]].
  apply (voltage_labels_upside_down 0 4); [lia | reflexivity | reflexivity].
Defined.
